(** * Job queue and worker engine of [app.py]

    A shallow embedding of the [jobs] table, of the statements that
    [worker_loop], [process_target], [start_job] and [job_status] run against
    it, and of the interleavings of the worker thread with the request
    handlers.  Every SQL statement followed by its [commit] is one atomic
    step; what lies between two statements of one function is a program
    point of that function. *)

From Stdlib Require Import List String Arith Bool Lia Sorted.
Import ListNotations.
Local Open Scope string_scope.
Local Open Scope nat_scope.
Local Open Scope list_scope.

(** ** The [jobs] table *)

(** The four values the code ever writes to the [status] column. *)
Inductive Status : Type := queued | running | done | error.

#[local] Set Warnings "-register-all".

(** JSON values, as built by [process_target] and the handlers.  A Python
    [dict] keeps insertion order, hence the association list. *)
Inductive Json : Type :=
| JNull
| JBool (b : bool)
| JInt (n : nat)
| JStr (s : string)
| JList (l : list Json)
| JDict (kv : list (string * Json)).

(** One row of [jobs].  The column [result_json] holds the text
    [json.dumps v]; the row keeps the value [v] itself, which is what
    [json.loads] gives back in [job_status].  [None] is SQL NULL.
    [created_at] is filled by the database clock and read nowhere. *)
Record Job : Type := mkJob {
  id : nat;
  target : string;
  status : Status;
  result_json : option Json
}.

(** The table in insertion order, and the AUTOINCREMENT counter
    ([sqlite_sequence]): the largest row id handed out so far. *)
Record DB : Type := mkDB {
  jobs : list Job;
  seq : nat
}.

(** [init_db] on a new database file. *)
Definition init_db : DB := mkDB [] 0.

Definition is_queued (r : Job) : bool :=
  match status r with queued => true | _ => false end.


Definition is_terminal (st : Status) : bool :=
  match st with done | error => true | _ => false end.

(** [INSERT INTO jobs (target, status) VALUES (?, 'queued')] and
    [cur.lastrowid] (lines 168-169). *)
Definition enqueue (t : string) (d : DB) : nat * DB :=
  let i := S (seq d) in
  (i, mkDB (jobs d ++ [mkJob i t queued None]) i).

(** [ORDER BY id LIMIT 1]: the row of least [id]. *)
Fixpoint lowest_id (rows : list Job) : option Job :=
  match rows with
  | [] => None
  | r :: rest =>
      match lowest_id rest with
      | None => Some r
      | Some m => Some (if id m <? id r then m else r)
      end
  end.

(** [SELECT id, target FROM jobs WHERE status='queued' ORDER BY id LIMIT 1]
    and [fetchone] (lines 67-68). *)
Definition select_queued (d : DB) : option (nat * string) :=
  option_map (fun r => (id r, target r))
             (lowest_id (filter is_queued (jobs d))).

(** [UPDATE jobs SET ... WHERE id=?]: every row with that id is rewritten,
    whatever its status; no row is touched when the id is unknown. *)
Definition update_where_id (f : Job -> Job) (j : nat) (d : DB) : DB :=
  mkDB (map (fun r => if id r =? j then f r else r) (jobs d)) (seq d).

Definition set_status (st : Status) (r : Job) : Job :=
  mkJob (id r) (target r) st (result_json r).

Definition set_outcome (st : Status) (v : Json) (r : Job) : Job :=
  mkJob (id r) (target r) st (Some v).

(** [UPDATE jobs SET status='running' WHERE id=?] (line 71). *)
Definition mark_running (j : nat) (d : DB) : DB :=
  update_where_id (set_status running) j d.

(** [UPDATE jobs SET status='done', result_json=? WHERE id=?] (line 79). *)
Definition complete (j : nat) (v : Json) (d : DB) : DB :=
  update_where_id (set_outcome done v) j d.

(** [UPDATE jobs SET status='error', result_json=? WHERE id=?] (line 85). *)
Definition fail_job (j : nat) (v : Json) (d : DB) : DB :=
  update_where_id (set_outcome error v) j d.

(** [SELECT ... FROM jobs WHERE id=?] and [fetchone] (line 179). *)
Definition get (j : nat) (d : DB) : option Job :=
  find (fun r => id r =? j) (jobs d).


Definition count_queued (d : DB) : nat :=
  List.length (filter is_queued (jobs d)).

(** ** The Fetcher: [process_target] over Instaloader *)

(** Exceptions, with the text [str(e)] gives.  Only
    [ProfileNotExistsException] is told apart by the code. *)
Inductive Exc : Type :=
| ProfileNotExistsException (msg : string)
| OtherException (msg : string).

Definition str (e : Exc) : string :=
  match e with
  | ProfileNotExistsException m => m
  | OtherException m => m
  end.

(** A Python call either returns or raises. *)
Inductive Outcome (A : Type) : Type :=
| Returns (a : A)
| Raises (e : Exc).
Arguments Returns {A} a.
Arguments Raises {A} e.

Record Post : Type := mkPost {
  date_utc : string;          (* [post.date_utc.isoformat()] *)
  caption : option string
}.

(** The generator [profile.get_posts()]: each [next] yields a post, ends,
    or raises. *)
Inductive Posts : Type :=
| posts_end
| posts_yield (p : Post) (rest : Posts)
| posts_raise (e : Exc).

Record Profile : Type := mkProfile {
  username : string;
  full_name : string;
  is_private : bool;
  mediacount : nat;
  followers : nat;
  followees : nat;
  biography : string;
  profile_pic_url : option string;
  get_posts : Posts
}.

(** The remote side as the worker's [Instaloader] object sees it:
    what [Profile.from_username] answers for a name. *)
Definition Instaloader : Type := string -> Outcome Profile.

Definition opt_str (o : option string) : Json :=
  match o with Some s => JStr s | None => JNull end.

Definition post_json (p : Post) : Json :=
  JDict [("date", JStr (date_utc p)); ("caption", opt_str (caption p))].

(** The loop of lines 112-114: the generator is advanced first, the test
    [i >= 5] comes after, so a sixth post is fetched before the [break]. *)
Fixpoint latest_posts (i : nat) (it : Posts) (posts : list Json)
  : Outcome (list Json) :=
  match it with
  | posts_end => Returns posts
  | posts_raise e => Raises e
  | posts_yield p rest =>
      if 5 <=? i then Returns posts
      else latest_posts (S i) rest (posts ++ [post_json p])
  end.

Definition profile_data (p : Profile) : list (string * Json) :=
  [("exists", JBool true);
   ("username", JStr (username p));
   ("full_name", JStr (full_name p));
   ("is_private", JBool (is_private p));
   ("media_count", JInt (mediacount p));
   ("followers", JInt (followers p));
   ("followees", JInt (followees p));
   ("biography", JStr (biography p));
   ("profile_pic_url", opt_str (profile_pic_url p))].

Definition not_found : Json := JDict [("exists", JBool false)].

(** [process_target] (lines 96-118). *)
Definition process_target (L : Instaloader) (name : string) : Outcome Json :=
  let body :=
    match L name with
    | Raises e => Raises e
    | Returns p =>
        if negb (is_private p) && negb (mediacount p =? 0) then
          match latest_posts 0 (get_posts p) [] with
          | Raises e => Raises e
          | Returns posts =>
              Returns (JDict (profile_data p ++ [("latest_posts", JList posts)]))
          end
        else Returns (JDict (profile_data p))
    end in
  match body with
  | Raises (ProfileNotExistsException _) => Returns not_found
  | other => other
  end.

(** ** The worker thread *)

(** What sqlite3 does with one statement and its commit: it goes through,
    or an exception with this message is raised and nothing is written. *)
Inductive StoreResp : Type :=
| StoreOk
| StoreError (msg : string).

(** Program points of [worker_loop]. *)
Inductive PC : Type :=
| AtTop                                   (* line 65, before the SELECT *)
| Selected (job_id : nat) (tgt : string)  (* line 70, row read, UPDATE pending *)
| Claimed (job_id : nat) (tgt : string)   (* line 74, 'running' committed *)
| Persisting (job_id : nat) (result : Json) (* line 76, inside the [try] *)
| Handling (job_id : nat) (msg : string)  (* line 83, inside the [except] *)
| Crashed.                                (* an exception left [worker_loop] *)

Definition error_payload (msg : string) : Json :=
  JDict [("error", JStr msg)].

(** A step of the worker that talks to the database.  Lines 65-73 and
    83-88 are outside any [try]: an exception there ends the thread.
    Lines 77-81 are inside the [try]: an exception there is caught by
    [except Exception as e]. *)
Definition worker_db_step (resp : StoreResp) (d : DB) (pc : PC)
  : option (DB * PC) :=
  match pc with
  | AtTop =>
      match resp with
      | StoreError _ => Some (d, Crashed)
      | StoreOk =>
          match select_queued d with
          | Some (job_id, tgt) => Some (d, Selected job_id tgt)
          | None => Some (d, AtTop)            (* close, sleep(2) *)
          end
      end
  | Selected job_id tgt =>
      match resp with
      | StoreError _ => Some (d, Crashed)
      | StoreOk => Some (mark_running job_id d, Claimed job_id tgt)
      end
  | Persisting job_id result =>
      match resp with
      | StoreError m => Some (d, Handling job_id m)
      | StoreOk => Some (complete job_id result d, AtTop)
      end
  | Handling job_id m =>
      match resp with
      | StoreError _ => Some (d, Crashed)
      | StoreOk => Some (fail_job job_id (error_payload m) d, AtTop)
      end
  | Claimed _ _ => None
  | Crashed => None
  end.

(** The call [process_target(L, target)] of line 75. *)
Definition worker_fetch_step (L : Instaloader) (pc : PC) : option PC :=
  match pc with
  | Claimed job_id tgt =>
      match process_target L tgt with
      | Returns result => Some (Persisting job_id result)
      | Raises e => Some (Handling job_id (str e))
      end
  | _ => None
  end.

(** ** The request handlers *)

Inductive Reply : Type :=
| Http (body : Json) (code : nat)
| Http500.                         (* an exception left the handler *)

(** Python truth value of a string. *)
Definition truthy (s : string) : bool :=
  match s with EmptyString => false | String _ _ => true end.

(** [start_job] (lines 158-172).  [user] says whether the session holds a
    user; [name] is the [username] field of the JSON body, [None] when the
    body or the field is missing. *)
Definition start_job (user : bool) (name : option string)
                     (resp : StoreResp) (d : DB) : Reply * DB :=
  if negb user then (Http (JDict [("error", JStr "auth")]) 401, d)
  else
    match name with
    | None => (Http (JDict [("error", JStr "missing")]) 400, d)
    | Some tgt =>
        if negb (truthy tgt)
        then (Http (JDict [("error", JStr "missing")]) 400, d)
        else
          match resp with
          | StoreError _ => (Http500, d)
          | StoreOk =>
              let (job_id, d') := enqueue tgt d in
              (Http (JDict [("id", JInt job_id)]) 200, d')
          end
    end.

Definition status_text (st : Status) : string :=
  match st with
  | queued => "queued"
  | running => "running"
  | done => "done"
  | error => "error"
  end.

(** [job_status] (lines 174-189), for a numeric [id] argument. *)
Definition job_status (jid : nat) (d : DB) : Reply :=
  match get jid d with
  | None => Http (JDict [("error", JStr "notfound")]) 404
  | Some r =>
      let result := match result_json r with Some v => v | None => JNull end in
      Http (JDict [("id", JInt (id r));
                   ("status", JStr (status_text (status r)));
                   ("result", result)]) 200
  end.

(** ** The running system *)

(** The database and the program point of every worker thread.  Line 93
    starts one thread; the pool is a list so that the contract of the
    claim can be stated for more than one. *)
Record State : Type := mkState {
  db : DB;
  workers : list PC
}.

Definition boot (n : nat) : State := mkState init_db (repeat AtTop n).

Fixpoint set_worker (w : nat) (pc : PC) (ws : list PC) {struct ws}
  : list PC :=
  match ws, w with
  | [], _ => []
  | _ :: rest, O => pc :: rest
  | p :: rest, S w' => p :: set_worker w' pc rest
  end.

(** What can happen next, with what the environment answers. *)
Inductive Label : Type :=
| LSubmit (user : bool) (name : option string) (resp : StoreResp)
| LStatus (jid : nat)
| LWorkerDb (w : nat) (resp : StoreResp)
| LWorkerFetch (w : nat) (L : Instaloader).

Definition sys_step (s : State) (l : Label) : option State :=
  match l with
  | LSubmit user name resp =>
      Some (mkState (snd (start_job user name resp (db s))) (workers s))
  | LStatus _ => Some s
  | LWorkerDb w resp =>
      match nth_error (workers s) w with
      | None => None
      | Some pc =>
          match worker_db_step resp (db s) pc with
          | None => None
          | Some (d', pc') => Some (mkState d' (set_worker w pc' (workers s)))
          end
      end
  | LWorkerFetch w L =>
      match nth_error (workers s) w with
      | None => None
      | Some pc =>
          match worker_fetch_step L pc with
          | None => None
          | Some pc' => Some (mkState (db s) (set_worker w pc' (workers s)))
          end
      end
  end.

Fixpoint run (s : State) (ls : list Label) : option State :=
  match ls with
  | [] => Some s
  | l :: rest =>
      match sys_step s l with
      | None => None
      | Some s' => run s' rest
      end
  end.

(** States reachable with a pool of [n] workers from a new database. *)
Inductive reachable (n : nat) : State -> Prop :=
| reach_boot : reachable n (boot n)
| reach_step s l s' :
    reachable n s -> sys_step s l = Some s' -> reachable n s'.

(** The worker [w] commits the claim of job [j] in this step: it stands at
    [Selected j _] and its UPDATE goes through. *)
Definition claims_job (j : nat) (s : State) (l : Label) : bool :=
  match l with
  | LWorkerDb w StoreOk =>
      match nth_error (workers s) w with
      | Some (Selected job_id _) => job_id =? j
      | _ => false
      end
  | _ => false
  end.

(** How many times job [j] is claimed along an execution. *)
Fixpoint claim_count (j : nat) (s : State) (ls : list Label) : nat :=
  match ls with
  | [] => 0
  | l :: rest =>
      match sys_step s l with
      | None => 0
      | Some s' => (if claims_job j s l then 1 else 0) + claim_count j s' rest
      end
  end.

(** One status may follow another in a row: it stays, or moves one arrow
    along queued -> running -> done | error. *)
Definition advances (a b : Status) : bool :=
  match a, b with
  | queued, queued | running, running | done, done | error, error => true
  | queued, running => true
  | running, done | running, error => true
  | _, _ => false
  end.

(** ** Invariants of the single-worker system *)

(** What holds of the table in every state the system reaches. *)
Record db_ok (d : DB) : Prop := mk_db_ok {
  ids_nodup : NoDup (map id (jobs d));
  ids_bound : forall r, In r (jobs d) -> id r <= seq d;
  result_null :
    forall r, In r (jobs d) -> is_terminal (status r) = false ->
              result_json r = None;
  result_set :
    forall r, In r (jobs d) -> is_terminal (status r) = true ->
              result_json r <> None;
  fifo :
    forall a b, In a (jobs d) -> In b (jobs d) ->
                status a = queued -> status b <> queued -> id b < id a
}.

Definition no_running (d : DB) : Prop :=
  forall r, In r (jobs d) -> status r <> running.

(** Job [j] is in the table with status [st]. *)
Definition has_status (d : DB) (j : nat) (st : Status) : Prop :=
  exists r, In r (jobs d) /\ id r = j /\ status r = st.

(** The worker is busy with job [j]: it is the one running row. *)
Definition holds (d : DB) (j : nat) : Prop :=
  has_status d j running /\
  forall r, In r (jobs d) -> status r = running -> id r = j.

(** What each program point of the one worker knows about the table. *)
Definition pc_ok (d : DB) (pc : PC) : Prop :=
  match pc with
  | AtTop => no_running d
  | Selected j t =>
      no_running d /\
      (exists r, In r (jobs d) /\ id r = j /\ target r = t /\
                 status r = queued) /\
      (forall r, In r (jobs d) -> status r = queued -> j <= id r)
  | Claimed j t =>
      holds d j /\ exists r, In r (jobs d) /\ id r = j /\ target r = t
  | Persisting j _ => holds d j
  | Handling j _ => holds d j
  | Crashed =>
      exists j, forall r, In r (jobs d) -> status r = running -> id r = j
  end.

Definition Inv (s : State) : Prop :=
  exists pc, workers s = [pc] /\ db_ok (db s) /\ pc_ok (db s) pc.

(** A row stays as it is, goes from queued to running with nothing else
    touched, or goes from running to a terminal status and gets its
    result. *)
Definition row_next (r r' : Job) : Prop :=
  r' = r \/
  (status r = queued /\ r' = set_status running r) \/
  (status r = running /\
   exists st v, is_terminal st = true /\ r' = set_outcome st v r).

(** How many more times job [j] can be claimed: once while it is queued
    or not yet created, never afterwards. *)
Definition claim_budget (d : DB) (j : nat) : nat :=
  match get j d with
  | Some r => if is_queued r then 1 else 0
  | None => 1
  end.

(** ** The contracts under test, and sample executions *)

(** The claim is race-free for a pool of [n] workers: along every
    execution from a new database no job is claimed twice. *)
Definition claim_race_free (n : nat) : Prop :=
  forall ls j, claim_count j (boot n) ls <= 1.

(** [complete] and [fail_job] leave a row that is not running alone. *)
Definition finish_guarded : Prop :=
  forall d j v r,
    get j d = Some r -> status r <> running ->
    complete j v d = d /\ fail_job j v d = d.

(** A store failure never ends a worker. *)
Definition worker_survives_store_failure : Prop :=
  forall s w m s',
    sys_step s (LWorkerDb w (StoreError m)) = Some s' ->
    nth_error (workers s') w <> Some Crashed.

Definition submit_alice : Label := LSubmit true (Some "alice") StoreOk.
Definition submit_bob : Label := LSubmit true (Some "bob") StoreOk.

(** Two threads run [worker_loop]: both read row 1 before either
    writes. *)
Definition race : list Label :=
  [submit_alice; LWorkerDb 0 StoreOk; LWorkerDb 1 StoreOk;
   LWorkerDb 0 StoreOk; LWorkerDb 1 StoreOk].

Definition to_selected : list Label := [submit_alice; LWorkerDb 0 StoreOk].
Definition to_claimed : list Label :=
  [submit_alice; submit_bob; LWorkerDb 0 StoreOk; LWorkerDb 0 StoreOk].

Definition alice_queued : Job := mkJob 1 "alice" queued None.
Definition alice_running : Job := mkJob 1 "alice" running None.
Definition bob_queued : Job := mkJob 2 "bob" queued None.

Definition s_selected : State :=
  mkState (mkDB [alice_queued] 1) [Selected 1 "alice"].
Definition s_claimed : State :=
  mkState (mkDB [alice_running; bob_queued] 2) [Claimed 1 "alice"].

Definition L_timeout : Instaloader :=
  fun _ => Raises (OtherException "timed out").
Definition L_missing : Instaloader :=
  fun _ => Raises (ProfileNotExistsException "no such profile").

(** ** Reports, accounts and sessions *)

(** What [download_report] sends back: the text 'No report' with 404, or
    the PDF rendered from [report.html] over [data], offered under the name
    report_<jid>.pdf.  Template and PDF engine are outside this file. *)
Inductive Download : Type :=
| NoReport
| Report (data : Json) (jid : nat).

(** [download_report] (lines 191-205), for a numeric [id] argument.  A
    [result_json] text is never empty, so [not row[0]] is the NULL test. *)
Definition download_report (jid : nat) (d : DB) : Download :=
  match get jid d with
  | None => NoReport
  | Some r =>
      match result_json r with
      | None => NoReport
      | Some data => Report data jid
      end
  end.

(** One row of [users]. *)
Record User : Type := mkUser {
  user_id : nat;
  user_name : string;
  password_hash : string
}.

Record Users : Type := mkUsers {
  user_rows : list User;
  user_seq : nat
}.

(** The [users] table that [init_db] creates in a new file. *)
Definition no_users : Users := mkUsers [] 0.

(** [create_default_admin] (lines 42-50).  The hash function is
    werkzeug's. *)
Definition create_default_admin (generate_password_hash : string -> string)
                                (us : Users) : Users :=
  if List.length (user_rows us) =? 0 then
    mkUsers (user_rows us ++
               [mkUser (S (user_seq us)) "admin"
                       (generate_password_hash "admin123")])
            (S (user_seq us))
  else us.

(** The Flask session: the keys [user] and [disclaimer], and the
    [permanent] flag, which Flask keeps in the same dict. *)
Record Session : Type := mkSession {
  sess_user : option string;
  sess_disclaimer : bool;
  sess_permanent : bool
}.

Definition new_session : Session := mkSession None false false.

(** ['user' in session]. *)
Definition logged_in (ss : Session) : bool :=
  match sess_user ss with Some _ => true | None => false end.

Inductive Page : Type :=
| Redirect (endpoint : string)
| Template (name : string) (error_text : option string)
| BadRequest.                  (* a missing form field: KeyError, 400 *)

(** [home] (lines 121-125). *)
Definition home (ss : Session) : Page :=
  if negb (logged_in ss) then Redirect "disclaimer"
  else Template "index.html" None.

(** [disclaimer] (lines 127-132). *)
Definition disclaimer (post : bool) (ss : Session) : Page * Session :=
  if post
  then (Redirect "login",
        mkSession (sess_user ss) true (sess_permanent ss))
  else (Template "disclaimer.html" None, ss).

(** [SELECT id, password_hash FROM users WHERE username=?] (line 142). *)
Definition find_user (name : string) (us : Users) : option User :=
  find (fun u => String.eqb (user_name u) name) (user_rows us).

(** [login] (lines 134-151).  The form fields are [None] when the form
    lacks them; [remember] is ['remember' in request.form]. *)
Definition login (check_password_hash : string -> string -> bool)
                 (post : bool) (form_username form_password : option string)
                 (remember : bool) (us : Users) (ss : Session)
  : Page * Session :=
  if post then
    match form_username with
    | None => (BadRequest, ss)
    | Some name =>
        match form_password with
        | None => (BadRequest, ss)
        | Some password =>
            match find_user name us with
            | Some row =>
                if check_password_hash (password_hash row) password
                then (Redirect "home",
                      mkSession (Some name) (sess_disclaimer ss)
                                (if remember then true
                                 else sess_permanent ss))
                else (Template "login.html" (Some "Invalid credentials"), ss)
            | None =>
                (Template "login.html" (Some "Invalid credentials"), ss)
            end
        end
    end
  else (Template "login.html" None, ss).

(** [logout] (lines 153-156): [session.clear()]. *)
Definition logout (ss : Session) : Page * Session :=
  (Redirect "login", new_session).

(** ** Notions for the further properties *)

(** A generator that yields the posts of [ps] and then goes on as
    [tail]. *)
Fixpoint yield_all (ps : list Post) (tail : Posts) : Posts :=
  match ps with
  | [] => tail
  | p :: rest => posts_yield p (yield_all rest tail)
  end.

(** Ids are positive, below the counter, and no two rows share one. *)
Definition ids_ok (d : DB) : Prop :=
  NoDup (map id (jobs d)) /\
  forall r, In r (jobs d) -> 1 <= id r <= seq d.

(** One full turn of the loop of worker 0 with the store answering:
    poll, claim, fetch, persist. *)
Definition cycle (L : Instaloader) : list Label :=
  [LWorkerDb 0 StoreOk; LWorkerDb 0 StoreOk; LWorkerFetch 0 L;
   LWorkerDb 0 StoreOk].

Fixpoint cycles (n : nat) (L : Instaloader) : list Label :=
  match n with
  | O => []
  | S n' => cycle L ++ cycles n' L
  end.

(** The id whose claim is committed by this step, if any. *)
Definition claimed_id (s : State) (l : Label) : option nat :=
  match l with
  | LWorkerDb w StoreOk =>
      match nth_error (workers s) w with
      | Some (Selected job_id _) => Some job_id
      | _ => None
      end
  | _ => None
  end.

(** The ids claimed along an execution, in the order of the claims. *)
Fixpoint claim_trace (s : State) (ls : list Label) : list nat :=
  match ls with
  | [] => []
  | l :: rest =>
      match sys_step s l with
      | None => []
      | Some s' =>
          match claimed_id s l with
          | Some j => j :: claim_trace s' rest
          | None => claim_trace s' rest
          end
      end
  end.

Definition sample_posts (n : nat) : list Post :=
  map (fun i => mkPost "2024-01-01T00:00:00" None) (List.seq 0 n).

Definition sample_profile (posts : Posts) : Profile :=
  mkProfile "alice" "Alice" false 7 100 50 "hello" None posts.

Definition L_found (posts : Posts) : Instaloader :=
  fun _ => Returns (sample_profile posts).

Definition s_two_queued : State :=
  mkState (mkDB [alice_queued; bob_queued] 2) [AtTop].

Definition s_crashed : State :=
  mkState (mkDB [alice_queued] 1) [Crashed].

(** A stand-in for werkzeug's pair of hash functions. *)
Definition toy_hash (password : string) : string :=
  String.append "plain:" password.
Definition toy_check (hash password : string) : bool :=
  String.eqb hash (toy_hash password).

(** * Facts about the table operations *)

Section TableFacts.

Variable f : Job -> Job.
Hypothesis f_id : forall r, id (f r) = id r.

Lemma update_ids j d :
  map id (jobs (update_where_id f j d)) = map id (jobs d).
Proof.
  unfold update_where_id; simpl.
  induction (jobs d) as [|r rows IH]; simpl; [reflexivity|].
  rewrite IH. destruct (id r =? j); [rewrite f_id|]; reflexivity.
Qed.

Lemma update_In j d r' :
  In r' (jobs (update_where_id f j d)) ->
  exists r, In r (jobs d) /\ id r' = id r /\
            ((id r = j /\ r' = f r) \/ (id r <> j /\ r' = r)).
Proof.
  unfold update_where_id; simpl. rewrite in_map_iff.
  intros [r [E H]]. exists r. split; [assumption|].
  destruct (Nat.eqb_spec (id r) j); subst r'.
  - rewrite f_id. split; [reflexivity | left; split; [assumption | reflexivity]].
  - split; [reflexivity | right; split; [assumption | reflexivity]].
Qed.

Lemma In_update j d r :
  In r (jobs d) ->
  In (if id r =? j then f r else r) (jobs (update_where_id f j d)).
Proof.
  intro H. unfold update_where_id; simpl.
  apply in_map_iff. exists r. split; [reflexivity | assumption].
Qed.

Lemma get_update k j d :
  get k (update_where_id f j d) =
  if k =? j then option_map f (get j d) else get k d.
Proof.
  unfold get, update_where_id; simpl.
  induction (jobs d) as [|r rows IH]; simpl.
  - destruct (k =? j); reflexivity.
  - destruct (Nat.eqb_spec (id r) j) as [E|E].
    + rewrite f_id, E. destruct (Nat.eqb_spec j k) as [E'|E'].
      * subst k. rewrite Nat.eqb_refl. reflexivity.
      * destruct (Nat.eqb_spec k j); [congruence | exact IH].
    + destruct (Nat.eqb_spec (id r) k) as [E'|E'].
      * destruct (Nat.eqb_spec k j); [congruence | reflexivity].
      * exact IH.
Qed.

End TableFacts.

Lemma set_status_id st r : id (set_status st r) = id r.
Proof. reflexivity. Qed.

Lemma set_outcome_id st v r : id (set_outcome st v r) = id r.
Proof. reflexivity. Qed.

Lemma get_In j d r : get j d = Some r -> In r (jobs d) /\ id r = j.
Proof.
  unfold get. intro H. apply find_some in H. destruct H as [H E].
  split; [assumption | now apply Nat.eqb_eq].
Qed.

Lemma id_inj rows a b :
  NoDup (map id rows) -> In a rows -> In b rows -> id a = id b -> a = b.
Proof.
  induction rows as [|r rows IH]; simpl; [tauto|].
  intros N Ha Hb E. inversion N as [|x xs Hx N']; subst.
  destruct Ha as [Ha|Ha], Hb as [Hb|Hb].
  - congruence.
  - subst a. exfalso. apply Hx. rewrite E. now apply in_map.
  - subst b. exfalso. apply Hx. rewrite <- E. now apply in_map.
  - now apply IH.
Qed.

Lemma In_get d r :
  NoDup (map id (jobs d)) -> In r (jobs d) -> get (id r) d = Some r.
Proof.
  intros N H. unfold get.
  destruct (find (fun r0 => id r0 =? id r) (jobs d)) as [r0|] eqn:F.
  - apply find_some in F. destruct F as [H0 E]. apply Nat.eqb_eq in E.
    f_equal. now apply (id_inj (jobs d)).
  - exfalso. apply (find_none _ _ F) in H. now rewrite Nat.eqb_refl in H.
Qed.

Lemma get_enqueue_old t d j r :
  get j d = Some r -> get j (snd (enqueue t d)) = Some r.
Proof.
  unfold get, enqueue; simpl.
  induction (jobs d) as [|x rows IH]; simpl; [discriminate|].
  destruct (id x =? j); [trivial | exact IH].
Qed.

Lemma lowest_id_spec rows m :
  lowest_id rows = Some m ->
  In m rows /\ forall r, In r rows -> id m <= id r.
Proof.
  revert m. induction rows as [|x rows IH]; simpl; [discriminate|].
  intros m H. destruct (lowest_id rows) as [m0|] eqn:L.
  - destruct (IH m0 eq_refl) as [Hin Hmin].
    destruct (Nat.ltb_spec (id m0) (id x)); injection H as <-.
    + split; [now right|]. intros r [<-|Hr]; [lia | now apply Hmin].
    + split; [now left|]. intros r [<-|Hr]; [lia|].
      specialize (Hmin r Hr). lia.
  - injection H as <-. destruct rows as [|y rows'].
    + split; [now left|]. intros r [<- | [ ] ]. lia.
    + simpl in L. destruct (lowest_id rows'); discriminate.
Qed.

Lemma lowest_id_none rows : lowest_id rows = None -> rows = [].
Proof.
  destruct rows as [|x rows]; simpl; [reflexivity|].
  destruct (lowest_id rows); discriminate.
Qed.

Lemma select_queued_spec d j t :
  select_queued d = Some (j, t) ->
  (exists r, In r (jobs d) /\ id r = j /\ target r = t /\ status r = queued) /\
  (forall r, In r (jobs d) -> status r = queued -> j <= id r).
Proof.
  unfold select_queued. intro H.
  destruct (lowest_id (filter is_queued (jobs d))) as [m|] eqn:L;
    [|discriminate].
  simpl in H. injection H as <- <-.
  apply lowest_id_spec in L. destruct L as [Hin Hmin].
  apply filter_In in Hin. destruct Hin as [Hin Hq].
  split.
  - exists m. repeat split; try assumption.
    unfold is_queued in Hq. destruct (status m); (reflexivity || discriminate).
  - intros r Hr Hs. apply Hmin. apply filter_In. split; [assumption|].
    unfold is_queued. now rewrite Hs.
Qed.

Lemma select_queued_none d :
  select_queued d = None <-> count_queued d = 0.
Proof.
  unfold select_queued, count_queued. split; intro H.
  - destruct (lowest_id (filter is_queued (jobs d))) eqn:L; [discriminate|].
    apply lowest_id_none in L. now rewrite L.
  - apply length_zero_iff_nil in H. now rewrite H.
Qed.

(** * The single-worker invariant *)

Lemma boot_Inv : Inv (boot 1).
Proof.
  exists AtTop. split; [reflexivity|]. split.
  - constructor; simpl; try (intros; contradiction). constructor.
  - intros r [].
Qed.

(** ** Inserting a row *)

Lemma enqueue_In t d r :
  In r (jobs (snd (enqueue t d))) <->
  In r (jobs d) \/ r = mkJob (S (seq d)) t queued None.
Proof.
  unfold enqueue; simpl. rewrite in_app_iff. simpl.
  split; intros [H|H]; auto.
  - destruct H as [H | [ ] ]; auto.
Qed.

Lemma enqueue_db_ok t d : db_ok d -> db_ok (snd (enqueue t d)).
Proof.
  intros [N B RN RS F]. constructor.
  - unfold enqueue; simpl. rewrite map_app; simpl.
    apply NoDup_app.
    + assumption.
    + repeat constructor. intros [].
    + intros x Hx [<- | [ ] ]. apply in_map_iff in Hx.
      destruct Hx as [r [E Hr]]. apply B in Hr. lia.
  - intros r H. apply enqueue_In in H. destruct H as [H | ->].
    + apply B in H. simpl. lia.
    + simpl. lia.
  - intros r H. apply enqueue_In in H. destruct H as [H | ->]; auto.
  - intros r H. apply enqueue_In in H. destruct H as [H | ->]; auto.
    simpl. discriminate.
  - intros a b Ha Hb. apply enqueue_In in Ha. apply enqueue_In in Hb.
    destruct Ha as [Ha | ->], Hb as [Hb | ->]; simpl; auto.
    + congruence.
    + intros _ Hq. apply B in Hb. lia.
    + congruence.
Qed.

Lemma enqueue_pc_ok t d pc :
  db_ok d -> pc_ok d pc -> pc_ok (snd (enqueue t d)) pc.
Proof.
  intros D.
  assert (NR : no_running d -> no_running (snd (enqueue t d))).
  { intros H r Hr. apply enqueue_In in Hr. destruct Hr as [Hr | ->].
    - now apply H.
    - simpl. discriminate. }
  assert (RO : forall j,
             (forall r, In r (jobs d) -> status r = running -> id r = j) ->
             forall r, In r (jobs (snd (enqueue t d))) ->
                       status r = running -> id r = j).
  { intros j H r Hr. apply enqueue_In in Hr. destruct Hr as [Hr | ->].
    - now apply H.
    - simpl. discriminate. }
  assert (HO : forall j, holds d j -> holds (snd (enqueue t d)) j).
  { intros j [[r [Hr E]] H]. split.
    - exists r. split; [apply enqueue_In; now left | assumption].
    - now apply RO. }
  destruct pc as [|j tg|j tg|j v|j m|]; simpl.
  - exact NR.
  - intros [H1 [[r [Hr [E1 [E2 E3]]]] H3]]. split; [now apply NR|]. split.
    + exists r. split; [apply enqueue_In; now left | auto].
    + intros r' Hr'. apply enqueue_In in Hr'. destruct Hr' as [Hr' | ->].
      * now apply H3.
      * simpl. intros _. apply (ids_bound d D) in Hr. lia.
  - intros [H [r [Hr E]]]. split; [now apply HO|].
    exists r. split; [apply enqueue_In; now left | assumption].
  - apply HO.
  - apply HO.
  - intros [j H]. exists j. now apply RO.
Qed.

Lemma start_job_db user name resp d :
  snd (start_job user name resp d) = d \/
  exists t, snd (start_job user name resp d) = snd (enqueue t d).
Proof.
  unfold start_job. destruct user; simpl; [|now left].
  destruct name as [t|]; [|now left].
  destruct (truthy t); simpl; [|now left].
  destruct resp; [|now left].
  right. exists t. reflexivity.
Qed.

(** ** The worker's three UPDATEs *)

Lemma mark_running_ok j t d :
  db_ok d -> pc_ok d (Selected j t) ->
  db_ok (mark_running j d) /\ pc_ok (mark_running j d) (Claimed j t).
Proof.
  intros [N B RN RS F] [NR [[r0 [H0 [E0 [T0 Q0]]]] MIN]].
  assert (ONE : forall r, In r (jobs d) -> id r = j -> r = r0).
  { intros r Hr E. apply (id_inj (jobs d)); congruence. }
  unfold mark_running. split; [constructor|].
  - rewrite update_ids; [assumption | apply set_status_id].
  - intros r' H. apply update_In in H; [|apply set_status_id].
    destruct H as [r [Hr [E _]]]. simpl. rewrite E. now apply B.
  - intros r' H T. apply update_In in H; [|apply set_status_id].
    destruct H as [r [Hr [_ [[E ->] | [E ->]]]]].
    + simpl. apply RN; [assumption|]. rewrite (ONE r Hr E), Q0. reflexivity.
    + now apply RN.
  - intros r' H T. apply update_In in H; [|apply set_status_id].
    destruct H as [r [Hr [_ [[E ->] | [E ->]]]]].
    + simpl in T. discriminate.
    + now apply RS.
  - intros a' b' Ha Hb Qa Qb.
    apply update_In in Ha; [|apply set_status_id].
    apply update_In in Hb; [|apply set_status_id].
    destruct Ha as [a [Ha [Ea [[Ea' ->] | [Ea' ->]]]]];
      [simpl in Qa; discriminate|].
    destruct Hb as [b [Hb [Eb [[Eb' ->] | [Eb' ->]]]]].
    + simpl. specialize (MIN a Ha Qa). lia.
    + now apply F.
  - split; [split|].
    + exists (set_status running r0). split; [|split; [exact E0 | reflexivity]].
      generalize (In_update (set_status running) j d r0 H0).
      rewrite E0, Nat.eqb_refl. trivial.
    + intros r' H R. apply update_In in H; [|apply set_status_id].
      destruct H as [r [Hr [E [[E' ->] | [E' ->]]]]].
      * exact E'.
      * exfalso. now apply (NR r Hr).
    + exists (set_status running r0). split; [|split; [exact E0 | exact T0]].
      generalize (In_update (set_status running) j d r0 H0).
      rewrite E0, Nat.eqb_refl. trivial.
Qed.

Lemma finish_ok st v j d :
  is_terminal st = true -> db_ok d -> holds d j ->
  db_ok (update_where_id (set_outcome st v) j d) /\
  no_running (update_where_id (set_outcome st v) j d).
Proof.
  intros T [N B RN RS F] [[r0 [H0 [E0 R0]]] ONLY].
  assert (ONE : forall r, In r (jobs d) -> id r = j -> r = r0).
  { intros r Hr E. apply (id_inj (jobs d)); congruence. }
  split; [constructor|].
  - rewrite update_ids; [assumption | apply set_outcome_id].
  - intros r' H. apply update_In in H; [|apply set_outcome_id].
    destruct H as [r [Hr [E _]]]. simpl. rewrite E. now apply B.
  - intros r' H T'. apply update_In in H; [|apply set_outcome_id].
    destruct H as [r [Hr [_ [[E ->] | [E ->]]]]].
    + simpl in T'. congruence.
    + now apply RN.
  - intros r' H T'. apply update_In in H; [|apply set_outcome_id].
    destruct H as [r [Hr [_ [[E ->] | [E ->]]]]].
    + simpl. discriminate.
    + now apply RS.
  - intros a' b' Ha Hb Qa Qb.
    apply update_In in Ha; [|apply set_outcome_id].
    apply update_In in Hb; [|apply set_outcome_id].
    destruct Ha as [a [Ha [Ea [[Ea' ->] | [Ea' ->]]]]].
    { simpl in Qa. subst st. discriminate. }
    destruct Hb as [b [Hb [Eb [[Eb' ->] | [Eb' ->]]]]].
    + simpl. apply F; try assumption.
      rewrite (ONE b Hb Eb'), R0. discriminate.
    + now apply F.
  - intros r' H R. apply update_In in H; [|apply set_outcome_id].
    destruct H as [r [Hr [E [[E' ->] | [E' ->]]]]].
    + simpl in R. subst st. discriminate.
    + apply E'. now apply ONLY.
Qed.

(** ** Every step keeps the invariant *)

Lemma single_worker (pc : PC) w pc0 :
  nth_error [pc] w = Some pc0 -> w = 0 /\ pc0 = pc.
Proof.
  destruct w as [|w]; simpl; intro H.
  - injection H as <-. auto.
  - destruct w; discriminate.
Qed.

Lemma holds_crashed d j :
  holds d j ->
  exists k, forall r, In r (jobs d) -> status r = running -> id r = k.
Proof. intros [_ H]. now exists j. Qed.

Lemma no_running_crashed d :
  no_running d ->
  exists k, forall r, In r (jobs d) -> status r = running -> id r = k.
Proof. intros H. exists 0. intros r Hr R. now apply H in Hr. Qed.

Lemma worker_db_step_ok resp d pc d' pc' :
  db_ok d -> pc_ok d pc ->
  worker_db_step resp d pc = Some (d', pc') ->
  db_ok d' /\ pc_ok d' pc'.
Proof.
  intros D P H. destruct pc as [|j t|j t|j v|j m|]; simpl in H.
  - destruct resp.
    + destruct (select_queued d) as [[j t]|] eqn:S; injection H as <- <-.
      * split; [assumption|]. simpl. split; [assumption|].
        now apply select_queued_spec.
      * auto.
    + injection H as <- <-. split; [assumption|].
      now apply no_running_crashed.
  - destruct resp; injection H as <- <-.
    + now apply mark_running_ok.
    + split; [assumption|]. apply no_running_crashed. apply P.
  - discriminate.
  - destruct resp; injection H as <- <-.
    + apply finish_ok; auto.
    + auto.
  - destruct resp; injection H as <- <-.
    + apply finish_ok; auto.
    + split; [assumption|]. now apply (holds_crashed d j).
  - discriminate.
Qed.

Lemma worker_fetch_step_ok L d pc pc' :
  pc_ok d pc -> worker_fetch_step L pc = Some pc' -> pc_ok d pc'.
Proof.
  intros P H. destruct pc as [|j t|j t|j v|j m|]; simpl in H;
    try discriminate.
  destruct (process_target L t); injection H as <-; apply P.
Qed.

Lemma step_Inv s l s' : Inv s -> sys_step s l = Some s' -> Inv s'.
Proof.
  intros [pc [W [D P]]] H. destruct l as [u n r|jid|w r|w L]; simpl in H.
  - injection H as <-. exists pc. split; [assumption|]. simpl.
    destruct (start_job_db u n r (db s)) as [-> | [t ->]].
    + auto.
    + split; [now apply enqueue_db_ok | now apply enqueue_pc_ok].
  - injection H as <-. now exists pc.
  - rewrite W in H. destruct (nth_error [pc] w) as [pc0|] eqn:E;
      [|discriminate].
    apply single_worker in E. destruct E as [-> ->].
    destruct (worker_db_step r (db s) pc) as [[d' pc']|] eqn:S;
      [|discriminate].
    injection H as <-. exists pc'. split; [reflexivity|]. simpl.
    now apply (worker_db_step_ok r (db s) pc).
  - rewrite W in H. destruct (nth_error [pc] w) as [pc0|] eqn:E;
      [|discriminate].
    apply single_worker in E. destruct E as [-> ->].
    destruct (worker_fetch_step L pc) as [pc'|] eqn:S; [|discriminate].
    injection H as <-. exists pc'. split; [reflexivity|]. simpl.
    split; [assumption | now apply (worker_fetch_step_ok L (db s) pc)].
Qed.

Lemma reachable_Inv s : reachable 1 s -> Inv s.
Proof.
  induction 1 as [|s l s' _ IH H]; [apply boot_Inv|].
  now apply (step_Inv s l).
Qed.

Lemma run_reachable n ls : forall s s',
  reachable n s -> run s ls = Some s' -> reachable n s'.
Proof.
  induction ls as [|l ls IH]; simpl; intros s s' R H.
  - injection H as <-. assumption.
  - destruct (sys_step s l) as [s1|] eqn:S; [|discriminate].
    apply (IH s1); [|assumption]. now apply (reach_step n s l).
Qed.

(** ** How one row changes in one step *)

Lemma worker_db_step_row resp d pc d' pc' j r :
  db_ok d -> pc_ok d pc ->
  worker_db_step resp d pc = Some (d', pc') ->
  get j d = Some r ->
  exists r', get j d' = Some r' /\ row_next r r'.
Proof.
  intros D P H G.
  assert (SAME : exists r', get j d = Some r' /\ row_next r r')
    by (exists r; split; [assumption | now left]).
  assert (TERM : forall st v k,
             is_terminal st = true -> holds d k ->
             exists r', get j (update_where_id (set_outcome st v) k d)
                        = Some r' /\ row_next r r').
  { intros st v k T [[r0 [H0 [E0 R0]]] _].
    rewrite get_update by apply set_outcome_id.
    destruct (Nat.eqb_spec j k) as [->|NE]; [|exact SAME].
    rewrite G. simpl. eexists. split; [reflexivity|].
    right; right. destruct (get_In _ _ _ G) as [Hr Er].
    assert (r = r0)
      by (apply (id_inj (jobs d)); [apply D | | | congruence]; assumption).
    subst r0. split; [assumption|]. now exists st, v. }
  destruct pc as [|k t|k t|k v|k m|]; simpl in H; try discriminate.
  - destruct resp; [destruct (select_queued d) as [[? ?]|]|];
      injection H as <- <-; exact SAME.
  - destruct resp; injection H as <- <-; [|exact SAME].
    destruct P as [_ [[r0 [H0 [E0 [_ Q0]]]] _]].
    unfold mark_running. rewrite get_update by apply set_status_id.
    destruct (Nat.eqb_spec j k) as [->|NE]; [|exact SAME].
    rewrite G. simpl. eexists. split; [reflexivity|].
    right; left. destruct (get_In _ _ _ G) as [Hr Er].
    assert (r = r0)
      by (apply (id_inj (jobs d)); [apply D | | | congruence]; assumption).
    subst r0. split; [assumption | reflexivity].
  - destruct resp; injection H as <- <-; [|exact SAME].
    now apply TERM.
  - destruct resp; injection H as <- <-; [|exact SAME].
    now apply TERM.
Qed.

Lemma row_evolution s l s' j r :
  Inv s -> sys_step s l = Some s' -> get j (db s) = Some r ->
  exists r', get j (db s') = Some r' /\ row_next r r'.
Proof.
  intros [pc [W [D P]]] H G.
  destruct l as [u n rs|jid|w rs|w L]; simpl in H.
  - injection H as <-. simpl. exists r. split; [|now left].
    destruct (start_job_db u n rs (db s)) as [-> | [t ->]];
      [assumption | now apply get_enqueue_old].
  - injection H as <-. exists r. split; [assumption | now left].
  - rewrite W in H. destruct (nth_error [pc] w) as [pc0|] eqn:E;
      [|discriminate].
    apply single_worker in E. destruct E as [-> ->].
    destruct (worker_db_step rs (db s) pc) as [[d' pc']|] eqn:S;
      [|discriminate].
    injection H as <-. simpl.
    now apply (worker_db_step_row rs (db s) pc d' pc').
  - destruct (nth_error (workers s) w) as [pc0|]; [|discriminate].
    destruct (worker_fetch_step L pc0); [|discriminate].
    injection H as <-. exists r. split; [assumption | now left].
Qed.

Lemma row_next_advances r r' :
  row_next r r' -> advances (status r) (status r') = true.
Proof.
  intros [-> | [[Q ->] | [R [st [v [T ->]]]]]]; simpl.
  - destruct (status r); reflexivity.
  - rewrite Q. reflexivity.
  - rewrite R. destruct st; (discriminate || reflexivity).
Qed.



(** ** The claim step *)

Lemma claim_step s l s' j :
  Inv s -> sys_step s l = Some s' -> claims_job j s l = true ->
  exists t r,
    workers s = [Selected j t] /\
    get j (db s) = Some r /\ status r = queued /\ target r = t /\
    (forall r', In r' (jobs (db s)) -> status r' = queued -> j <= id r') /\
    db s' = mark_running j (db s) /\
    workers s' = [Claimed j t] /\
    get j (db s') = Some (set_status running r).
Proof.
  intros [pc [W [D P]]] H C.
  destruct l as [u n rs|jid|w rs|w L]; simpl in C; try discriminate.
  destruct rs; [|discriminate]. simpl in H. rewrite W in *.
  destruct (nth_error [pc] w) as [pc0|] eqn:E; [|discriminate].
  apply single_worker in E. destruct E as [-> ->].
  destruct pc as [|k t|k t|k v|k m|]; try discriminate.
  apply Nat.eqb_eq in C. subst k. simpl in H. injection H as <-.
  destruct P as [_ [[r0 [H0 [E0 [T0 Q0]]]] MIN]].
  assert (G : get j (db s) = Some r0)
    by (rewrite <- E0; apply In_get; [apply D | assumption]).
  exists t, r0. simpl. repeat split; try assumption; try reflexivity.
  unfold mark_running. rewrite get_update by apply set_status_id.
  rewrite Nat.eqb_refl, G. reflexivity.
Qed.

Lemma claim_budget_le_1 d j : claim_budget d j <= 1.
Proof.
  unfold claim_budget. destruct (get j d) as [r|]; [|lia].
  destruct (is_queued r); lia.
Qed.

Lemma claim_budget_step s l s' j :
  Inv s -> sys_step s l = Some s' ->
  claim_budget (db s') j <= claim_budget (db s) j.
Proof.
  intros I H. unfold claim_budget at 2.
  destruct (get j (db s)) as [r|] eqn:G; [|apply claim_budget_le_1].
  destruct (row_evolution s l s' j r I H G) as [r' [G' N]].
  unfold claim_budget. rewrite G'. unfold is_queued.
  destruct N as [-> | [[Q ->] | [Rn [st [v [T ->]]]]]]; simpl.
  - lia.
  - rewrite Q. lia.
  - rewrite Rn. destruct st; (discriminate || lia).
Qed.

Lemma claim_count_le_budget j ls : forall s,
  Inv s -> claim_count j s ls <= claim_budget (db s) j.
Proof.
  induction ls as [|l ls IH]; simpl; intros s I; [lia|].
  destruct (sys_step s l) as [s'|] eqn:H; [|lia].
  pose proof (step_Inv s l s' I H) as I'.
  specialize (IH s' I').
  destruct (claims_job j s l) eqn:C.
  - destruct (claim_step s l s' j I H C)
      as [t [r [_ [G [Q [_ [_ [_ [_ G']]]]]]]]].
    unfold claim_budget in *. rewrite G. rewrite G' in IH.
    unfold is_queued in *. rewrite Q. simpl in IH. lia.
  - pose proof (claim_budget_step s l s' j I H). lia.
Qed.

Ltac by_run tr :=
  apply (run_reachable 1 tr (boot 1)); [apply reach_boot | reflexivity].

(** * The claims *)


(** C3.  In the single-worker system no step moves a row backwards: after
    any step from a reachable state the row with a given id is still
    there, with the same status or the next one along
    queued -> running -> done | error.  In particular a running row never
    becomes queued again and a done or error row keeps its status. *)
Theorem status_monotone s l s' j r :
  reachable 1 s -> sys_step s l = Some s' -> get j (db s) = Some r ->
  exists r',
    get j (db s') = Some r' /\
    advances (status r) (status r') = true /\
    (status r = running -> status r' <> queued) /\
    (is_terminal (status r) = true -> status r' = status r).
Proof.
  intros R H G. apply reachable_Inv in R.
  destruct (row_evolution s l s' j r R H G) as [r' [G' N]].
  exists r'. split; [assumption|].
  pose proof (row_next_advances r r' N) as A.
  split; [assumption|]. split.
  - intros E Q. rewrite E, Q in A. discriminate.
  - intro T. destruct (status r), (status r'); simpl in *;
      (discriminate || reflexivity).
Qed.

(** C4.  In the single-worker system a row's result is NULL as long as
    its status is queued or running (from its creation on); a step
    changes the result of a row only when it takes the row from running to
    done or error, and then it stores a value; a row that is done or error
    is never changed again. *)
Theorem result_write_once s :
  reachable 1 s ->
  (forall j r, get j (db s) = Some r ->
               status r = queued \/ status r = running ->
               result_json r = None) /\
  (forall l s' j r,
      sys_step s l = Some s' -> get j (db s) = Some r ->
      exists r',
        get j (db s') = Some r' /\
        (is_terminal (status r) = true -> r' = r) /\
        (result_json r' <> result_json r ->
         status r = running /\ is_terminal (status r') = true /\
         result_json r = None) /\
        (is_terminal (status r) = false ->
         is_terminal (status r') = true ->
         exists v, result_json r' = Some v)).
Proof.
  intro R. apply reachable_Inv in R. split.
  - intros j r G Q. destruct R as [pc [_ [D _]]].
    apply (result_null _ D); [now apply (get_In j)|].
    destruct Q as [-> | ->]; reflexivity.
  - intros l s' j r H G.
    destruct (row_evolution s l s' j r R H G) as [r' [G' N]].
    exists r'. split; [assumption|].
    destruct R as [pc [_ [D _]]].
    destruct N as [-> | [[Q ->] | [Rn [st [v [T ->]]]]]].
    + repeat split; try reflexivity; congruence.
    + split; [rewrite Q; discriminate|]. split.
      * simpl. congruence.
      * simpl. intros _ T. discriminate.
    + split; [rewrite Rn; discriminate|]. split.
      * intros _. split; [assumption|]. split; [assumption|].
        apply (result_null _ D); [now apply (get_In j) | now rewrite Rn].
      * intros _ _. now exists v.
Qed.

(** C6.  In the single-worker system jobs are claimed in creation order.
    Ids grow with creation: a row inserted now gets an id above every id
    in the table.  Whenever the worker commits a claim, the claimed row is
    queued at that moment and no queued row has a lower id.  And in every
    reachable state, if A has a lower id than B and A is still queued,
    then B is still queued too. *)
Theorem claimed_in_creation_order s :
  reachable 1 s ->
  (forall t r, In r (jobs (db s)) -> id r < fst (enqueue t (db s))) /\
  (forall l s' j,
      sys_step s l = Some s' -> claims_job j s l = true ->
      exists r,
        get j (db s) = Some r /\ status r = queued /\
        (forall r', In r' (jobs (db s)) -> status r' = queued ->
                    j <= id r') /\
        get j (db s') = Some (set_status running r)) /\
  (forall a b, In a (jobs (db s)) -> In b (jobs (db s)) ->
               id a < id b -> status a = queued -> status b = queued).
Proof.
  intro R. apply reachable_Inv in R. split; [|split].
  - intros t r H. destruct R as [pc [_ [D _]]].
    apply (ids_bound _ D) in H. simpl. lia.
  - intros l s' j H C.
    destruct (claim_step s l s' j R H C)
      as [t [r [_ [G [Q [_ [MIN [_ [_ G']]]]]]]]].
    exists r. auto.
  - intros a b Ha Hb LT Qa. destruct R as [pc [_ [D _]]].
    destruct (status b) eqn:Sb; try reflexivity; exfalso;
      assert (id b < id a)
        by (apply (fifo _ D); try assumption; rewrite Sb; discriminate);
      lia.
Qed.

(** C1, as the code has it.  With the one worker thread that line 93
    starts, the claim (the SELECT of line 67 and the UPDATE of line 71) is
    race-free: from any reachable state on, a job is claimed at most once,
    and never again once it has left queued; every committed claim takes a
    row that is queued at that moment, turns it to running and hands its
    id and target to the worker; and the SELECT finds no row exactly when
    no row is queued. *)
Theorem claim_once_single_worker s :
  reachable 1 s ->
  (forall ls j, claim_count j s ls <= claim_budget (db s) j /\
                claim_count j s ls <= 1) /\
  (forall l s' j,
      sys_step s l = Some s' -> claims_job j s l = true ->
      exists t r,
        workers s = [Selected j t] /\
        get j (db s) = Some r /\ status r = queued /\ target r = t /\
        workers s' = [Claimed j t] /\
        get j (db s') = Some (set_status running r)) /\
  (select_queued (db s) = None <-> count_queued (db s) = 0).
Proof.
  intro R. apply reachable_Inv in R. split; [|split].
  - intros ls j. pose proof (claim_count_le_budget j ls s R).
    pose proof (claim_budget_le_1 (db s) j). lia.
  - intros l s' j H C.
    destruct (claim_step s l s' j R H C)
      as [t [r [W [G [Q [T [_ [_ [W' G']]]]]]]]].
    exists t, r. auto 10.
  - apply select_queued_none.
Qed.

(** C1 as stated fails for a pool of two: both workers read row 1 as the
    oldest queued row, and both UPDATEs go through, since the UPDATE does
    not look at the status. *)
Lemma claim_race_two_workers :
  run (boot 2) race =
    Some (mkState (mkDB [alice_running] 1)
                  [Claimed 1 "alice"; Claimed 1 "alice"]) /\
  claim_count 1 (boot 2) race = 2 /\
  ~ (forall n, 1 <= n -> claim_race_free n).
Proof.
  split; [reflexivity|]. split; [reflexivity|].
  intro H. specialize (H 2 (le_S 1 1 (le_n 1)) race 1).
  vm_compute in H. lia.
Qed.

Lemma claim_once_single_worker_witness :
  reachable 1 s_selected /\
  (forall l s' j,
      sys_step s_selected l = Some s' -> claims_job j s_selected l = true ->
      exists t r,
        workers s_selected = [Selected j t] /\
        get j (db s_selected) = Some r /\ status r = queued /\
        target r = t /\
        workers s' = [Claimed j t] /\
        get j (db s') = Some (set_status running r)).
Proof.
  split; [by_run to_selected|].
  apply (claim_once_single_worker s_selected). by_run to_selected.
Defined.


Lemma status_monotone_witness :
  reachable 1 s_selected /\
  sys_step s_selected (LWorkerDb 0 StoreOk) =
    Some (mkState (mkDB [alice_running] 1) [Claimed 1 "alice"]) /\
  get 1 (db s_selected) = Some alice_queued /\
  exists r',
    get 1 (mkDB [alice_running] 1) = Some r' /\
    advances queued (status r') = true /\
    (queued = running -> status r' <> queued) /\
    (is_terminal queued = true -> status r' = queued).
Proof.
  split; [by_run to_selected|]. split; [reflexivity|].
  split; [reflexivity|].
  apply (status_monotone s_selected (LWorkerDb 0 StoreOk)
           (mkState (mkDB [alice_running] 1) [Claimed 1 "alice"])
           1 alice_queued);
    [by_run to_selected | reflexivity | reflexivity].
Defined.

Lemma result_write_once_witness :
  reachable 1 s_claimed /\
  (forall j r, get j (db s_claimed) = Some r ->
               status r = queued \/ status r = running ->
               result_json r = None).
Proof.
  split; [by_run to_claimed|].
  apply (result_write_once s_claimed). by_run to_claimed.
Defined.

Lemma claimed_in_creation_order_witness :
  reachable 1 s_claimed /\
  (forall a b, In a (jobs (db s_claimed)) -> In b (jobs (db s_claimed)) ->
               id a < id b -> status a = queued -> status b = queued).
Proof.
  split; [by_run to_claimed|].
  apply (claimed_in_creation_order s_claimed). by_run to_claimed.
Defined.

(** C5, as the code has it.  The UPDATEs of lines 79 and 85 carry no
    condition on the status: they rewrite status and result of the row with
    the given id whatever its status, and touch no other row.  In the
    single-worker system the worker runs them only for the job it has
    claimed, and that row is running at that moment. *)
Theorem finish_unguarded_but_running s j :
  reachable 1 s ->
  (exists v, workers s = [Persisting j v]) \/
  (exists m, workers s = [Handling j m]) ->
  (exists r, get j (db s) = Some r /\ status r = running) /\
  (forall d v k,
      get k (complete j v d) =
      if k =? j then option_map (set_outcome done v) (get j d)
      else get k d) /\
  (forall d v k,
      get k (fail_job j v d) =
      if k =? j then option_map (set_outcome error v) (get j d)
      else get k d).
Proof.
  intros R W. split; [|split].
  - apply reachable_Inv in R. destruct R as [pc [W' [D P]]].
    assert (H : holds (db s) j).
    { destruct W as [[v W] | [m W]]; rewrite W in W';
        injection W' as <-; exact P. }
    destruct H as [[r [Hr [E Rn]]] _]. exists r. split; [|assumption].
    rewrite <- E. apply In_get; [apply D | assumption].
  - intros d v k. unfold complete. apply get_update. apply set_outcome_id.
  - intros d v k. unfold fail_job. apply get_update. apply set_outcome_id.
Qed.

(** C5 as stated fails: [complete] overwrites the result of a row that is
    already done, and [fail_job] turns a queued row into an error row. *)
Lemma finish_overwrites_any_row :
  complete 1 (JDict []) (mkDB [mkJob 1 "alice" done (Some not_found)] 1)
    = mkDB [mkJob 1 "alice" done (Some (JDict []))] 1 /\
  fail_job 1 (error_payload "x") (mkDB [alice_queued] 1)
    = mkDB [mkJob 1 "alice" error (Some (error_payload "x"))] 1 /\
  ~ finish_guarded.
Proof.
  split; [reflexivity|]. split; [reflexivity|].
  intro H.
  destruct (H (mkDB [alice_queued] 1) 1 JNull alice_queued eq_refl)
    as [C _]; [discriminate|].
  discriminate C.
Qed.

Lemma finish_unguarded_but_running_witness :
  reachable 1 (mkState (mkDB [alice_running] 1)
                       [Handling 1 "timed out"]) /\
  ((exists v, [Handling 1 "timed out"] = [Persisting 1 v]) \/
   (exists m, [Handling 1 "timed out"] = [Handling 1 m])) /\
  exists r, get 1 (mkDB [alice_running] 1) = Some r /\ status r = running.
Proof.
  assert (R : reachable 1 (mkState (mkDB [alice_running] 1)
                                   [Handling 1 "timed out"]))
    by by_run [submit_alice; LWorkerDb 0 StoreOk; LWorkerDb 0 StoreOk;
               LWorkerFetch 0 L_timeout].
  split; [exact R|].
  split; [right; exists "timed out"; reflexivity|].
  apply (finish_unguarded_but_running
           (mkState (mkDB [alice_running] 1) [Handling 1 "timed out"]) 1 R).
  right. exists "timed out". reflexivity.
Defined.





(** C9.  [start_job] with an empty target never changes the table,
    whoever calls it and whatever the store answers, and answers 400
    [{error: missing}] to a logged-in caller; with a non-empty target, a
    logged-in caller and a store that takes the INSERT, it appends one
    queued row with a NULL result and answers with that row's id. *)
Theorem submit_validates_target :
  (forall user resp d,
      snd (start_job user (Some EmptyString) resp d) = d /\
      count_queued (snd (start_job user (Some EmptyString) resp d))
        = count_queued d) /\
  (forall resp d,
      fst (start_job true (Some EmptyString) resp d) =
      Http (JDict [("error", JStr "missing")]) 400) /\
  (forall c tl d,
      start_job true (Some (String c tl)) StoreOk d =
      (Http (JDict [("id", JInt (S (seq d)))]) 200,
       mkDB (jobs d ++ [mkJob (S (seq d)) (String c tl) queued None])
            (S (seq d)))).
Proof.
  split; [|split].
  - intros user resp d.
    assert (E : snd (start_job user (Some EmptyString) resp d) = d)
      by (destruct user; reflexivity).
    rewrite E. auto.
  - reflexivity.
  - reflexivity.
Qed.

(** ** A worker that has crashed stays crashed *)

Lemma nth_error_set_worker w' pc ws : forall w,
  nth_error (set_worker w' pc ws) w =
  if w =? w'
  then match nth_error ws w with Some _ => Some pc | None => None end
  else nth_error ws w.
Proof.
  revert w'. induction ws as [|p ws IH]; intros w' w.
  - simpl. destruct w as [|w]; simpl.
    + destruct w'; reflexivity.
    + destruct w' as [|w']; [reflexivity|]. destruct (w =? w'); reflexivity.
  - destruct w' as [|w'], w as [|w]; simpl; try reflexivity.
    apply IH.
Qed.

Lemma crashed_step s l s' w :
  nth_error (workers s) w = Some Crashed ->
  sys_step s l = Some s' ->
  nth_error (workers s') w = Some Crashed.
Proof.
  intros C H. destruct l as [u n r|jid|w' r|w' L]; simpl in H.
  - injection H as <-. exact C.
  - injection H as <-. exact C.
  - destruct (nth_error (workers s) w') as [pc|] eqn:E; [|discriminate].
    destruct (worker_db_step r (db s) pc) as [[d' pc']|] eqn:S;
      [|discriminate].
    injection H as <-. simpl. rewrite nth_error_set_worker.
    destruct (Nat.eqb_spec w w') as [->|NE]; [|exact C].
    rewrite C in E. injection E as <-. discriminate S.
  - destruct (nth_error (workers s) w') as [pc|] eqn:E; [|discriminate].
    destruct (worker_fetch_step L pc) as [pc'|] eqn:S; [|discriminate].
    injection H as <-. simpl. rewrite nth_error_set_worker.
    destruct (Nat.eqb_spec w w') as [->|NE]; [|exact C].
    rewrite C in E. injection E as <-. discriminate S.
Qed.

Lemma crashed_run w ls : forall s s',
  nth_error (workers s) w = Some Crashed ->
  run s ls = Some s' ->
  nth_error (workers s') w = Some Crashed.
Proof.
  induction ls as [|l ls IH]; simpl; intros s s' C H.
  - injection H as <-. exact C.
  - destruct (sys_step s l) as [s1|] eqn:S; [|discriminate].
    apply (IH s1); [|assumption]. now apply (crashed_step s l).
Qed.

(** C10, as the code has it.  A store failure never changes the table.
    Raised while the worker persists a fetched result (lines 77-81, inside
    the [try]) it is caught and the worker goes on to record it as the
    job's error.  Raised anywhere else in the loop (lines 65-72 and 83-88)
    it leaves [worker_loop]: the thread is over, in every later state it
    is still over, and it takes no further step. *)
Theorem store_failure_ends_worker s w m s' :
  sys_step s (LWorkerDb w (StoreError m)) = Some s' ->
  db s' = db s /\
  ((exists j v, nth_error (workers s) w = Some (Persisting j v) /\
                nth_error (workers s') w = Some (Handling j m)) \/
   ((nth_error (workers s) w = Some AtTop \/
     (exists j t, nth_error (workers s) w = Some (Selected j t)) \/
     (exists j e, nth_error (workers s) w = Some (Handling j e))) /\
    nth_error (workers s') w = Some Crashed /\
    forall ls s'',
      run s' ls = Some s'' ->
      nth_error (workers s'') w = Some Crashed /\
      (forall resp, sys_step s'' (LWorkerDb w resp) = None) /\
      (forall L, sys_step s'' (LWorkerFetch w L) = None))).
Proof.
  intro H. simpl in H.
  destruct (nth_error (workers s) w) as [pc|] eqn:E; [|discriminate].
  assert (DEAD : forall d',
    nth_error (workers (mkState d' (set_worker w Crashed (workers s)))) w
      = Some Crashed /\
    forall ls s'',
      run (mkState d' (set_worker w Crashed (workers s))) ls = Some s'' ->
      nth_error (workers s'') w = Some Crashed /\
      (forall resp, sys_step s'' (LWorkerDb w resp) = None) /\
      (forall L, sys_step s'' (LWorkerFetch w L) = None)).
  { intro d'.
    assert (C : nth_error
                  (workers (mkState d' (set_worker w Crashed (workers s)))) w
                = Some Crashed)
      by (simpl; rewrite nth_error_set_worker, Nat.eqb_refl, E; reflexivity).
    split; [exact C|]. intros ls s'' Hrun.
    pose proof (crashed_run w ls _ s'' C Hrun) as C'.
    split; [exact C'|]. split; intros; simpl; rewrite C'; reflexivity. }
  destruct pc as [|j t|j t|j v|j e|]; simpl in H; try discriminate;
    injection H as <-; (split; [reflexivity|]).
  - right. split; [now left | apply DEAD].
  - right. split; [right; left; now exists j, t | apply DEAD].
  - left. exists j, v. split; [reflexivity|]. simpl.
    rewrite nth_error_set_worker, Nat.eqb_refl, E. reflexivity.
  - right. split; [right; right; now exists j, e | apply DEAD].
Qed.

(** C10 as stated fails: the first poll of a new system meets a locked
    database, the exception leaves [worker_loop], and no iteration runs
    afterwards. *)
Lemma store_failure_kills_worker :
  run (boot 1) [LWorkerDb 0 (StoreError "database is locked")]
    = Some (mkState init_db [Crashed]) /\
  sys_step (mkState init_db [Crashed]) (LWorkerDb 0 StoreOk) = None /\
  ~ worker_survives_store_failure.
Proof.
  split; [reflexivity|]. split; [reflexivity|].
  intro H.
  apply (H (boot 1) 0 "database is locked" (mkState init_db [Crashed]));
    reflexivity.
Qed.

Lemma store_failure_ends_worker_witness :
  sys_step (boot 1) (LWorkerDb 0 (StoreError "database is locked"))
    = Some (mkState init_db [Crashed]) /\
  db (mkState init_db [Crashed]) = db (boot 1).
Proof.
  split; [reflexivity|].
  apply (store_failure_ends_worker (boot 1) 0 "database is locked"
           (mkState init_db [Crashed])).
  reflexivity.
Defined.

(** * Further properties of the code *)

(** ** [process_target] *)

Lemma latest_posts_length it : forall i acc ps,
  latest_posts i it acc = Returns ps ->
  List.length ps <= List.length acc + (5 - i).
Proof.
  induction it as [|p rest IH|e]; cbn [latest_posts]; intros i acc ps H.
  - injection H as <-. lia.
  - destruct (Nat.leb_spec 5 i).
    + injection H as <-. lia.
    + apply IH in H. rewrite length_app in H. cbn [List.length] in H. lia.
  - discriminate.
Qed.

Lemma latest_posts_yield_all tail ps : forall i acc,
  i <= 5 ->
  latest_posts i (yield_all ps tail) acc =
  if i + List.length ps <=? 5
  then latest_posts (i + List.length ps) tail (acc ++ map post_json ps)
  else Returns (acc ++ map post_json (firstn (5 - i) ps)).
Proof.
  induction ps as [|p rest IH];
    cbn [yield_all latest_posts List.length map]; intros i acc Hi.
  - rewrite Nat.add_0_r, app_nil_r.
    destruct (Nat.leb_spec i 5); [reflexivity | lia].
  - destruct (Nat.leb_spec 5 i).
    + assert (i = 5) by lia. subst i.
      destruct (Nat.leb_spec (5 + S (List.length rest)) 5); [lia|].
      cbn [Nat.sub firstn map]. now rewrite app_nil_r.
    + rewrite IH by lia. rewrite <- !app_assoc. cbn [app].
      replace (S i + List.length rest) with (i + S (List.length rest))
        by lia.
      destruct (i + S (List.length rest) <=? 5); [reflexivity|].
      replace (5 - i) with (S (5 - S i)) by lia. reflexivity.
Qed.

(** X1.  [process_target] never lets a [ProfileNotExistsException] out:
    whatever it raises is another exception. *)
Theorem process_target_raises_other L t e :
  process_target L t = Raises e -> exists m, e = OtherException m.
Proof.
  unfold process_target. intro H.
  destruct (L t) as [p|e0].
  - destruct (negb (is_private p) && negb (mediacount p =? 0)).
    + destruct (latest_posts 0 (get_posts p) []) as [ps|e1];
        [discriminate|].
      destruct e1; [discriminate|]. injection H as <-. now eexists.
    + discriminate.
  - destruct e0; [discriminate|]. injection H as <-. now eexists.
Qed.

Lemma process_target_raises_other_witness :
  process_target L_timeout "alice" = Raises (OtherException "timed out") /\
  exists m, OtherException "timed out" = OtherException m.
Proof.
  split; [reflexivity|].
  apply (process_target_raises_other L_timeout "alice"). reflexivity.
Defined.

(** X2.  Whatever Instaloader answers, a result of [process_target] lists
    at most five posts under [latest_posts]. *)
Theorem latest_posts_at_most_five L t kv ps :
  process_target L t = Returns (JDict kv) ->
  In ("latest_posts", JList ps) kv ->
  List.length ps <= 5.
Proof.
  unfold process_target. intros H HI.
  assert (NP : forall p, ~ In ("latest_posts", JList ps) (profile_data p)).
  { intros p Hp. simpl in Hp.
    repeat (destruct Hp as [Hp|Hp]; [inversion Hp|]). exact Hp. }
  assert (NF : not_found = JDict kv -> False).
  { intro E. injection E as <-. simpl in HI.
    destruct HI as [HI|[]]. inversion HI. }
  destruct (L t) as [p|e0].
  - destruct (negb (is_private p) && negb (mediacount p =? 0)).
    + destruct (latest_posts 0 (get_posts p) []) as [ps0|e1] eqn:LP.
      * injection H as <-.
        change (In ("latest_posts", JList ps)
                   (profile_data p ++ [("latest_posts", JList ps0)])) in HI.
        apply in_app_or in HI.
        destruct HI as [HI|HI]; [now apply NP in HI|].
        destruct HI as [HI|[]]. injection HI as <-.
        apply latest_posts_length in LP. simpl in LP. lia.
      * destruct e1; [|discriminate]. exfalso. apply NF. congruence.
    + injection H as <-. now apply NP in HI.
  - destruct e0; [|discriminate]. exfalso. apply NF. congruence.
Qed.


(** X4.  The generator is advanced once more before the [break]: when it
    raises on any of the first six fetches, also on the sixth with five
    posts already collected, nothing of the profile is returned and the
    exception leaves [process_target]. *)
Theorem posts_failure_loses_profile L t p ps m :
  L t = Returns p ->
  is_private p = false -> mediacount p <> 0 ->
  get_posts p = yield_all ps (posts_raise (OtherException m)) ->
  List.length ps <= 5 ->
  process_target L t = Raises (OtherException m).
Proof.
  intros HL HP HM HG HT. unfold process_target. rewrite HL, HP.
  apply Nat.eqb_neq in HM. rewrite HM. simpl negb. simpl andb.
  rewrite HG, latest_posts_yield_all by lia. cbn [Nat.add].
  destruct (Nat.leb_spec (List.length ps) 5); [reflexivity | lia].
Qed.

(** X5.  The result [{exists: false}] comes from nowhere else than a
    [ProfileNotExistsException], raised by the lookup or by the posts
    generator: a profile that was found never yields it. *)
Theorem not_found_only_when_missing L t :
  process_target L t = Returns not_found ->
  (exists m, L t = Raises (ProfileNotExistsException m)) \/
  (exists p m, L t = Returns p /\
               latest_posts 0 (get_posts p) [] =
               Raises (ProfileNotExistsException m)).
Proof.
  unfold process_target. intro H.
  destruct (L t) as [p|e0].
  - right. destruct (negb (is_private p) && negb (mediacount p =? 0)).
    + destruct (latest_posts 0 (get_posts p) []) as [ps|e1] eqn:LP;
        [discriminate|].
      destruct e1 as [m|m]; [|discriminate]. now exists p, m.
    + discriminate.
  - left. destruct e0 as [m|m]; [|discriminate]. now exists m.
Qed.

(** ** The table under any number of workers *)

Lemma worker_db_step_db resp d pc d' pc' :
  worker_db_step resp d pc = Some (d', pc') ->
  d' = d \/
  exists f j, (forall r, id (f r) = id r /\ target (f r) = target r) /\
              d' = update_where_id f j d.
Proof.
  intro H. destruct pc as [|j t|j t|j v|j m|]; simpl in H;
    try discriminate.
  - destruct resp; [destruct (select_queued d) as [[? ?]|]|];
      injection H as <- <-; now left.
  - destruct resp; injection H as <- <-; [|now left].
    right. exists (set_status running), j. split; [now split | reflexivity].
  - destruct resp; injection H as <- <-; [|now left].
    right. exists (set_outcome done v), j. split; [now split | reflexivity].
  - destruct resp; injection H as <- <-; [|now left].
    right. exists (set_outcome error (error_payload m)), j.
    split; [now split | reflexivity].
Qed.

Lemma sys_step_db s l s' :
  sys_step s l = Some s' ->
  db s' = db s \/
  (exists t, db s' = snd (enqueue t (db s))) \/
  exists f j, (forall r, id (f r) = id r /\ target (f r) = target r) /\
              db s' = update_where_id f j (db s).
Proof.
  intro H. destruct l as [u n r|jid|w r|w L]; simpl in H.
  - injection H as <-. simpl.
    destruct (start_job_db u n r (db s)) as [E | [t E]];
      [now left | right; left; now exists t].
  - injection H as <-. now left.
  - destruct (nth_error (workers s) w) as [pc|]; [|discriminate].
    destruct (worker_db_step r (db s) pc) as [[d' pc']|] eqn:S;
      [|discriminate].
    injection H as <-. simpl.
    destruct (worker_db_step_db _ _ _ _ _ S) as [E | E];
      [now left | now right; right].
  - destruct (nth_error (workers s) w) as [pc|]; [|discriminate].
    destruct (worker_fetch_step L pc); [|discriminate].
    injection H as <-. now left.
Qed.

Lemma get_enqueue t d k :
  get k (snd (enqueue t d)) =
  match get k d with
  | Some r => Some r
  | None => if S (seq d) =? k
            then Some (mkJob (S (seq d)) t queued None) else None
  end.
Proof.
  unfold get, enqueue; simpl.
  induction (jobs d) as [|x rows IH]; simpl; [reflexivity|].
  destruct (id x =? k); [reflexivity | exact IH].
Qed.

Lemma ids_consecutive n s :
  reachable n s -> map id (jobs (db s)) = List.seq 1 (seq (db s)).
Proof.
  induction 1 as [|s l s' _ IH H]; [reflexivity|].
  destruct (sys_step_db s l s' H) as [-> | [[t ->] | [f [j [F ->]]]]].
  - exact IH.
  - unfold enqueue. cbn [snd jobs seq]. rewrite map_app, IH, seq_S.
    reflexivity.
  - rewrite update_ids by apply F. exact IH.
Qed.

Lemma reachable_ids_ok n s : reachable n s -> ids_ok (db s).
Proof.
  intro R. apply ids_consecutive in R. split.
  - rewrite R. apply seq_NoDup.
  - intros r Hr. apply (in_map id) in Hr. rewrite R in Hr.
    apply in_seq in Hr. lia.
Qed.

Lemma get_above_seq n s k :
  reachable n s -> seq (db s) < k -> get k (db s) = None.
Proof.
  intros R LT. destruct (get k (db s)) as [r|] eqn:G; [|reflexivity].
  apply get_In in G. destruct G as [Hr E].
  apply (proj2 (reachable_ids_ok n s R)) in Hr. lia.
Qed.


(** X7.  In every reachable state, whatever the number of workers, the
    ids in the table are 1, 2, ..., counter in insertion order: ids are
    unique, none is skipped or reused, and the k-th job ever submitted has
    id k. *)
Theorem job_ids_consecutive n s :
  reachable n s ->
  map id (jobs (db s)) = List.seq 1 (List.length (jobs (db s))) /\
  seq (db s) = List.length (jobs (db s)) /\
  NoDup (map id (jobs (db s))).
Proof.
  intro R. pose proof (ids_consecutive n s R) as E.
  assert (L : seq (db s) = List.length (jobs (db s))).
  { apply (f_equal (@List.length nat)) in E.
    rewrite length_map, length_seq in E. auto. }
  split; [now rewrite <- L|]. split; [exact L|].
  apply (reachable_ids_ok n s R).
Qed.

(** X8.  Submitting and then asking: in every reachable state the id that
    the next [start_job] will return is unknown to [job_status] (404)
    before the call; after it, [job_status] shows that id as queued with a
    null result, [download_report] has no report for it, and every other
    id reads as before. *)
Theorem submit_then_status n s c tl :
  reachable n s ->
  job_status (S (seq (db s))) (db s) =
    Http (JDict [("error", JStr "notfound")]) 404 /\
  job_status (S (seq (db s)))
             (snd (start_job true (Some (String c tl)) StoreOk (db s))) =
    Http (JDict [("id", JInt (S (seq (db s))));
                 ("status", JStr "queued"); ("result", JNull)]) 200 /\
  download_report (S (seq (db s)))
                  (snd (start_job true (Some (String c tl)) StoreOk (db s)))
    = NoReport /\
  forall k, k <> S (seq (db s)) ->
    get k (snd (start_job true (Some (String c tl)) StoreOk (db s)))
    = get k (db s).
Proof.
  intro R.
  assert (G : get (S (seq (db s))) (db s) = None)
    by (apply (get_above_seq n); [assumption | lia]).
  change (snd (start_job true (Some (String c tl)) StoreOk (db s)))
    with (snd (enqueue (String c tl) (db s))).
  assert (G' : get (S (seq (db s))) (snd (enqueue (String c tl) (db s)))
               = Some (mkJob (S (seq (db s))) (String c tl) queued None))
    by (rewrite get_enqueue, G, Nat.eqb_refl; reflexivity).
  split; [unfold job_status; now rewrite G|].
  split; [unfold job_status; now rewrite G'|].
  split; [unfold download_report; now rewrite G'|].
  intros k NE. rewrite get_enqueue.
  destruct (get k (db s)); [reflexivity|].
  destruct (Nat.eqb_spec (S (seq (db s))) k); [congruence | reflexivity].
Qed.

(** X9.  No step of the system, in any state and with any number of
    workers, deletes a row or changes a row's id or target: the row found
    under an id before the step is found under it after the step, with the
    same target, and the table never gets shorter. *)
Theorem rows_kept_target_fixed s l s' j r :
  sys_step s l = Some s' -> get j (db s) = Some r ->
  (exists r', get j (db s') = Some r' /\ id r' = id r /\
              target r' = target r) /\
  List.length (jobs (db s)) <= List.length (jobs (db s')).
Proof.
  intros H G.
  destruct (sys_step_db s l s' H) as [-> | [[t ->] | [f [k [F ->]]]]].
  - split; [now exists r | lia].
  - split.
    + exists r. split; [now apply get_enqueue_old | auto].
    + simpl. rewrite length_app. lia.
  - split.
    + rewrite get_update by apply F.
      destruct (Nat.eqb_spec j k) as [->|NE]; [|now exists r].
      rewrite G. simpl. exists (f r). split; [reflexivity | apply F].
    + simpl. rewrite length_map. lia.
Qed.

(** X10.  In the single-worker system [download_report] has a report for
    a job exactly when the job is done or error, and then it is the stored
    result, also for an error; for a queued or running job it answers
    'No report', and so it does for an id no row has. *)
Theorem report_iff_terminal s j :
  reachable 1 s ->
  (get j (db s) = None -> download_report j (db s) = NoReport) /\
  (forall r, get j (db s) = Some r ->
     (is_terminal (status r) = false ->
      download_report j (db s) = NoReport) /\
     (is_terminal (status r) = true ->
      exists v, result_json r = Some v /\
                download_report j (db s) = Report v j)).
Proof.
  intro R. apply reachable_Inv in R. destruct R as [pc [_ [D _]]].
  unfold download_report. split; [intros ->; reflexivity|].
  intros r G. rewrite G. destruct (get_In _ _ _ G) as [Hr _]. split.
  - intro T. now rewrite (result_null _ D r Hr T).
  - intro T. pose proof (result_set _ D r Hr T) as NN.
    destruct (result_json r) as [v|]; [now exists v | contradiction].
Qed.

(** ** The worker's turn, its failures, its order *)

Lemma claimed_get s j t :
  reachable 1 s -> workers s = [Claimed j t] ->
  exists r, get j (db s) = Some r /\ id r = j /\ target r = t /\
            status r = running.
Proof.
  intros R W. apply reachable_Inv in R. destruct R as [pc [W' [D P]]].
  rewrite W in W'. injection W' as <-.
  destruct P as [[[r [Hr [E Rn]]] _] [r1 [Hr1 [E1 T1]]]].
  assert (r1 = r) by (apply (id_inj (jobs (db s)));
                      [apply D | | | congruence]; assumption).
  subst r1. exists r. repeat split; try assumption.
  rewrite <- E. apply In_get; [apply D | assumption].
Qed.

Lemma get_finish st v j d r k :
  get j d = Some r ->
  get k (update_where_id (set_outcome st v) j d) =
  if k =? j then Some (mkJob (id r) (target r) st (Some v)) else get k d.
Proof.
  intro G. rewrite get_update by apply set_outcome_id.
  destruct (k =? j); [|reflexivity]. now rewrite G.
Qed.

(** X11.  In the single-worker system, when [process_target] returns a
    value for the claimed job, the worker's next two steps store it: the
    row is done with that value as result, [job_status] and
    [download_report] show it, no other row changes, and the worker is
    back at the top of its loop. *)
Theorem fetch_success_is_done s j t L v :
  reachable 1 s ->
  workers s = [Claimed j t] ->
  process_target L t = Returns v ->
  exists s',
    run s [LWorkerFetch 0 L; LWorkerDb 0 StoreOk] = Some s' /\
    get j (db s') = Some (mkJob j t done (Some v)) /\
    job_status j (db s') =
      Http (JDict [("id", JInt j); ("status", JStr "done");
                   ("result", v)]) 200 /\
    download_report j (db s') = Report v j /\
    (forall k, k <> j -> get k (db s') = get k (db s)) /\
    workers s' = [AtTop].
Proof.
  intros R W PT.
  destruct (claimed_get s j t R W) as [r [G [E [T _]]]].
  exists (mkState (complete j v (db s)) [AtTop]).
  assert (G' : get j (complete j v (db s)) = Some (mkJob j t done (Some v))).
  { unfold complete. rewrite (get_finish done v j (db s) r j G).
    rewrite Nat.eqb_refl, E, T. reflexivity. }
  split; [simpl; rewrite W; simpl; rewrite PT; reflexivity|].
  split; [exact G'|].
  split; [unfold job_status; simpl; rewrite G'; reflexivity|].
  split; [unfold download_report; simpl; rewrite G'; reflexivity|].
  split; [|reflexivity].
  intros k NE. simpl. unfold complete.
  rewrite (get_finish done v j (db s) r k G).
  destruct (Nat.eqb_spec k j); [contradiction | reflexivity].
Qed.


Lemma crashed_alone_step s l s1 :
  workers s = [Crashed] -> sys_step s l = Some s1 ->
  workers s1 = [Crashed] /\
  forall j r, get j (db s) = Some r -> get j (db s1) = Some r.
Proof.
  intros W H. destruct l as [u n rs|jid|w rs|w L]; simpl in H.
  - injection H as <-. simpl. split; [assumption|]. intros j r G.
    destruct (start_job_db u n rs (db s)) as [-> | [t ->]];
      [assumption | now apply get_enqueue_old].
  - injection H as <-. auto.
  - rewrite W in H. destruct (nth_error [Crashed] w) as [pc|] eqn:E;
      [|discriminate].
    apply single_worker in E. destruct E as [-> ->]. discriminate H.
  - rewrite W in H. destruct (nth_error [Crashed] w) as [pc|] eqn:E;
      [|discriminate].
    apply single_worker in E. destruct E as [-> ->]. discriminate H.
Qed.

(** X13.  Once the only worker has crashed nothing processes jobs any
    more: through any later execution the worker stays crashed and every
    row stays exactly as it was, so queued jobs stay queued and a job
    caught running stays running; requests can still add rows. *)
Theorem crashed_worker_freezes_jobs ls : forall s s',
  workers s = [Crashed] -> run s ls = Some s' ->
  workers s' = [Crashed] /\
  forall j r, get j (db s) = Some r -> get j (db s') = Some r.
Proof.
  induction ls as [|l ls IH]; simpl; intros s s' W H.
  - injection H as <-. auto.
  - destruct (sys_step s l) as [s1|] eqn:S; [|discriminate].
    destruct (crashed_alone_step s l s1 W S) as [W1 K1].
    destruct (IH s1 s' W1 H) as [W' K']. auto.
Qed.






Lemma claimed_id_claims s l j :
  claimed_id s l = Some j -> claims_job j s l = true.
Proof.
  destruct l as [u n rs|jid|w rs|w L]; simpl; try discriminate.
  destruct rs; [|discriminate].
  destruct (nth_error (workers s) w) as [[|k t|k t|k v|k m|]|];
    try discriminate.
  intro H. injection H as ->. apply Nat.eqb_refl.
Qed.

Lemma claims_above_processed ls : forall s j r,
  Inv s -> get j (db s) = Some r -> status r <> queued ->
  Forall (lt j) (claim_trace s ls).
Proof.
  induction ls as [|l ls IH]; simpl; intros s j r I G NQ; [constructor|].
  destruct (sys_step s l) as [s'|] eqn:H; [|constructor].
  pose proof (step_Inv s l s' I H) as I'.
  destruct (row_evolution s l s' j r I H G) as [r' [G' N]].
  assert (NQ' : status r' <> queued).
  { apply row_next_advances in N. intro Q. rewrite Q in N.
    destruct (status r); simpl in N; congruence. }
  specialize (IH s' j r' I' G' NQ').
  destruct (claimed_id s l) as [k|] eqn:C; [|exact IH].
  constructor; [|exact IH].
  apply claimed_id_claims in C.
  destruct (claim_step s l s' k I H C) as [t [rk [_ [Gk [Qk _]]]]].
  destruct I as [pc [_ [D _]]].
  destruct (get_In _ _ _ G) as [Hr Er].
  destruct (get_In _ _ _ Gk) as [Hk Ek].
  rewrite <- Er, <- Ek. now apply (fifo _ D).
Qed.

(** X15.  In the single-worker system the ids of the jobs claimed along
    any execution, from any reachable state, form a strictly increasing
    sequence: the worker never goes back to an older job and never takes
    one twice. *)
Theorem claims_in_increasing_order ls : forall s,
  reachable 1 s -> StronglySorted lt (claim_trace s ls).
Proof.
  assert (K : forall s, Inv s -> StronglySorted lt (claim_trace s ls)).
  { induction ls as [|l ls IH]; simpl; intros s I; [constructor|].
    destruct (sys_step s l) as [s'|] eqn:H; [|constructor].
    pose proof (step_Inv s l s' I H) as I'.
    destruct (claimed_id s l) as [k|] eqn:C; [|now apply IH].
    constructor; [now apply IH|].
    apply claimed_id_claims in C.
    destruct (claim_step s l s' k I H C)
      as [t [rk [_ [_ [_ [_ [_ [_ [_ Gk]]]]]]]]].
    apply (claims_above_processed ls s' k _ I' Gk). discriminate. }
  intros s R. apply K. now apply reachable_Inv.
Qed.

(** ** Accounts and sessions *)

(** X16.  After the start-up on a new database ([init_db], then
    [create_default_admin]) the account admin / admin123 logs in, provided
    werkzeug's check accepts the hash it generated: the reply redirects to
    [home], the session holds the user, and it is made permanent exactly
    when 'remember' was ticked. *)
Theorem default_admin_logs_in gen chk remember ss :
  chk (gen "admin123") "admin123" = true ->
  login chk true (Some "admin") (Some "admin123") remember
        (create_default_admin gen no_users) ss
  = (Redirect "home",
     mkSession (Some "admin") (sess_disclaimer ss)
               (if remember then true else sess_permanent ss)) /\
  home (snd (login chk true (Some "admin") (Some "admin123") remember
                   (create_default_admin gen no_users) ss))
  = Template "index.html" None.
Proof.
  intro H. unfold login, create_default_admin, find_user. simpl.
  rewrite H. split; reflexivity.
Qed.

Lemma default_admin_logs_in_witness :
  toy_check (toy_hash "admin123") "admin123" = true /\
  login toy_check true (Some "admin") (Some "admin123") true
        (create_default_admin toy_hash no_users) new_session
  = (Redirect "home", mkSession (Some "admin") false true).
Proof.
  split; [reflexivity|].
  apply (default_admin_logs_in toy_hash toy_check true new_session).
  reflexivity.
Defined.

(** X17.  [create_default_admin] adds the admin account to an empty
    [users] table only: a table with at least one row is left as it is, so
    running it again at the next start neither duplicates the account nor
    resets a password. *)
Theorem default_admin_created_once gen :
  (forall u rest n,
      create_default_admin gen (mkUsers (u :: rest) n)
      = mkUsers (u :: rest) n) /\
  (forall us,
      create_default_admin gen (create_default_admin gen us)
      = create_default_admin gen us) /\
  (forall n,
      user_rows (create_default_admin gen (mkUsers [] n))
      = [mkUser (S n) "admin" (gen "admin123")]).
Proof.
  split; [reflexivity|]. split; [|reflexivity].
  intros [rows n]. destruct rows as [|u rest]; reflexivity.
Qed.

(** X18.  [login] is the only way in and it checks the password: when it
    redirects to [home], the request was a POST carrying a user name that
    has a row in [users] and a password that werkzeug's check accepts for
    that row's hash, and the session then holds exactly that name; with
    any other reply the session is unchanged. *)
Theorem login_checks_credentials chk post fu fp remember us ss :
  (fst (login chk post fu fp remember us ss) = Redirect "home" ->
   exists name password row,
     post = true /\ fu = Some name /\ fp = Some password /\
     In row (user_rows us) /\ user_name row = name /\
     chk (password_hash row) password = true /\
     sess_user (snd (login chk post fu fp remember us ss)) = Some name) /\
  (fst (login chk post fu fp remember us ss) <> Redirect "home" ->
   snd (login chk post fu fp remember us ss) = ss).
Proof.
  unfold login. destruct post; [|split; [discriminate | reflexivity]].
  destruct fu as [name|]; [|split; [discriminate | reflexivity]].
  destruct fp as [password|]; [|split; [discriminate | reflexivity]].
  destruct (find_user name us) as [row|] eqn:F;
    [|split; [discriminate | reflexivity]].
  destruct (chk (password_hash row) password) eqn:C;
    [|split; [discriminate | reflexivity]].
  split; [|intro N; now contradiction N].
  intros _. exists name, password, row.
  unfold find_user in F. apply find_some in F. destruct F as [Hin E].
  apply String.eqb_eq in E. auto 10.
Qed.

(** X19.  [logout] empties the session whatever it held: afterwards
    [home] redirects to the disclaimer and [start_job] answers 401 without
    touching the table.  [disclaimer] never logs anybody in or out. *)
Theorem logout_ends_session ss :
  snd (logout ss) = new_session /\
  home (snd (logout ss)) = Redirect "disclaimer" /\
  (forall name resp d,
      start_job (logged_in (snd (logout ss))) name resp d
      = (Http (JDict [("error", JStr "auth")]) 401, d)) /\
  (forall post, logged_in (snd (disclaimer post ss)) = logged_in ss).
Proof.
  split; [reflexivity|]. split; [reflexivity|]. split; [reflexivity|].
  intros [|]; reflexivity.
Qed.

(** ** Instances *)

Lemma latest_posts_at_most_five_witness :
  process_target (L_found (yield_all (sample_posts 7) posts_end)) "alice"
  = Returns (JDict (profile_data (sample_profile posts_end) ++
                      [("latest_posts",
                        JList (map post_json (sample_posts 5)))])) /\
  In ("latest_posts", JList (map post_json (sample_posts 5)))
     (profile_data (sample_profile posts_end) ++
        [("latest_posts", JList (map post_json (sample_posts 5)))]) /\
  List.length (map post_json (sample_posts 5)) <= 5.
Proof.
  assert (I : In ("latest_posts", JList (map post_json (sample_posts 5)))
                 (profile_data (sample_profile posts_end) ++
                    [("latest_posts",
                      JList (map post_json (sample_posts 5)))]))
    by (apply in_or_app; right; left; reflexivity).
  split; [reflexivity|]. split; [exact I|].
  apply (latest_posts_at_most_five
           (L_found (yield_all (sample_posts 7) posts_end)) "alice"
           (profile_data (sample_profile posts_end) ++
              [("latest_posts", JList (map post_json (sample_posts 5)))]));
    [reflexivity | exact I].
Defined.


Lemma posts_failure_loses_profile_witness :
  process_target
    (L_found (yield_all (sample_posts 5)
                        (posts_raise (OtherException "rate limit"))))
    "alice"
  = Raises (OtherException "rate limit").
Proof.
  apply (posts_failure_loses_profile _ "alice"
           (sample_profile
              (yield_all (sample_posts 5)
                         (posts_raise (OtherException "rate limit"))))
           (sample_posts 5) "rate limit");
    [reflexivity | reflexivity | discriminate | reflexivity
    | simpl; lia].
Defined.

Lemma not_found_only_when_missing_witness :
  process_target L_missing "ghost" = Returns not_found /\
  ((exists m, L_missing "ghost" = Raises (ProfileNotExistsException m)) \/
   (exists p m, L_missing "ghost" = Returns p /\
                latest_posts 0 (get_posts p) [] =
                Raises (ProfileNotExistsException m))).
Proof.
  split; [reflexivity|].
  apply (not_found_only_when_missing L_missing "ghost"). reflexivity.
Defined.

Lemma job_ids_consecutive_witness :
  reachable 1 s_claimed /\
  map id (jobs (db s_claimed)) = [1; 2] /\
  seq (db s_claimed) = 2 /\
  NoDup (map id (jobs (db s_claimed))).
Proof.
  split; [by_run to_claimed|].
  apply (job_ids_consecutive 1 s_claimed). by_run to_claimed.
Defined.

Lemma submit_then_status_witness :
  reachable 1 s_claimed /\
  job_status 3 (db s_claimed) =
    Http (JDict [("error", JStr "notfound")]) 404 /\
  job_status 3 (snd (start_job true (Some "carol") StoreOk (db s_claimed))) =
    Http (JDict [("id", JInt 3);
                 ("status", JStr "queued"); ("result", JNull)]) 200.
Proof.
  assert (R : reachable 1 s_claimed) by by_run to_claimed.
  split; [exact R|].
  split.
  - exact (proj1 (submit_then_status 1 s_claimed Ascii.zero EmptyString R)).
  - refine (proj1 (proj2 (submit_then_status 1 s_claimed _ _ R))).
Defined.

Lemma rows_kept_target_fixed_witness :
  sys_step s_selected (LWorkerDb 0 StoreOk)
    = Some (mkState (mkDB [alice_running] 1) [Claimed 1 "alice"]) /\
  get 1 (db s_selected) = Some alice_queued /\
  (exists r', get 1 (mkDB [alice_running] 1) = Some r' /\
              id r' = 1 /\ target r' = "alice") /\
  1 <= 1.
Proof.
  split; [reflexivity|]. split; [reflexivity|].
  apply (rows_kept_target_fixed s_selected (LWorkerDb 0 StoreOk)
           (mkState (mkDB [alice_running] 1) [Claimed 1 "alice"])
           1 alice_queued); reflexivity.
Defined.

Lemma report_iff_terminal_witness :
  reachable 1 s_claimed /\
  (get 1 (db s_claimed) = None -> download_report 1 (db s_claimed) = NoReport)
  /\
  (forall r, get 1 (db s_claimed) = Some r ->
     (is_terminal (status r) = false ->
      download_report 1 (db s_claimed) = NoReport) /\
     (is_terminal (status r) = true ->
      exists v, result_json r = Some v /\
                download_report 1 (db s_claimed) = Report v 1)).
Proof.
  split; [by_run to_claimed|].
  apply (report_iff_terminal s_claimed 1). by_run to_claimed.
Defined.

Lemma fetch_success_is_done_witness :
  reachable 1 s_claimed /\
  workers s_claimed = [Claimed 1 "alice"] /\
  process_target (L_found posts_end) "alice"
    = Returns (JDict (profile_data (sample_profile posts_end) ++
                        [("latest_posts", JList [])])) /\
  exists s',
    run s_claimed [LWorkerFetch 0 (L_found posts_end); LWorkerDb 0 StoreOk]
      = Some s' /\
    download_report 1 (db s') =
      Report (JDict (profile_data (sample_profile posts_end) ++
                       [("latest_posts", JList [])])) 1 /\
    workers s' = [AtTop].
Proof.
  split; [by_run to_claimed|]. split; [reflexivity|].
  split; [reflexivity|].
  destruct (fetch_success_is_done s_claimed 1 "alice" (L_found posts_end)
              (JDict (profile_data (sample_profile posts_end) ++
                        [("latest_posts", JList [])])))
    as [s' [H1 [_ [_ [H4 [_ H6]]]]]];
    [by_run to_claimed | reflexivity | reflexivity|].
  exists s'. auto.
Defined.


Lemma crashed_worker_freezes_jobs_witness :
  workers s_crashed = [Crashed] /\
  run s_crashed [submit_bob; LStatus 1]
    = Some (mkState (mkDB [alice_queued; bob_queued] 2) [Crashed]) /\
  workers (mkState (mkDB [alice_queued; bob_queued] 2) [Crashed])
    = [Crashed] /\
  forall j r, get j (db s_crashed) = Some r ->
              get j (mkDB [alice_queued; bob_queued] 2) = Some r.
Proof.
  split; [reflexivity|]. split; [reflexivity|].
  apply (crashed_worker_freezes_jobs [submit_bob; LStatus 1] s_crashed
           (mkState (mkDB [alice_queued; bob_queued] 2) [Crashed]));
    reflexivity.
Defined.


Lemma claims_in_increasing_order_witness :
  reachable 1 s_two_queued /\
  claim_trace s_two_queued (cycles 2 L_missing) = [1; 2] /\
  StronglySorted lt (claim_trace s_two_queued (cycles 2 L_missing)).
Proof.
  split; [by_run [submit_alice; submit_bob]|]. split; [reflexivity|].
  apply (claims_in_increasing_order (cycles 2 L_missing) s_two_queued).
  by_run [submit_alice; submit_bob].
Defined.
